(** * jk_backend: the lexical search index and the ingestion job tracker

    A shallow embedding of [app/services/search_service.py] and
    [app/api/v1/routers/ingestion.py] (with the parts of
    [app/services/document_service.py], [app/repositories/base.py] and
    [app/models/*.py] they call), followed by the properties proved
    about them.

    Conventions of the embedding:
    - a Python [str] is a list of characters; characters are the first 256
      code points, on which [str.lower] and [str.split] are closed;
    - a Python [int] is a [Z]; a Python [float] obtained by dividing two
      integers is the exact rational (a [Q]);
    - a Python [dict] is an association list in insertion order, assignment
      to an existing key keeping the key's position;
    - a database table is a finite map from its primary key to the row; a
      scan without ORDER BY returns the rows in the order of the map's
      enumeration, on which no property depends;
    - code that may raise returns a [result]; [db.execute] raises when the
      server fails to execute the statement;
    - a timestamp is an instant, counted in microseconds. *)

From Stdlib Require Import ZArith QArith Ascii Sorted Permutation.
From stdpp Require Import base list strings gmap sorting.

Local Open Scope Z_scope.

(** ** Python values and built-ins *)
Module Py.

Inductive exn : Type :=
| KeyError
| IndexError
| DBError                  (* any error raised by [db.execute]/[db.commit] *)
| DocumentNotFoundError
| HTTPException (status_code : Z).

Inductive result (A : Type) : Type :=
| Ok (a : A)
| Raise (e : exn).
Arguments Ok {A} a.
Arguments Raise {A} e.

Definition bind {A B} (r : result A) (k : A -> result B) : result B :=
  match r with
  | Ok a => k a
  | Raise e => Raise e
  end.

(** [try: body except Exception as e: handler(e)] *)
Definition try_except {A} (body : result A) (handler : exn -> result A)
  : result A :=
  match body with
  | Ok a => Ok a
  | Raise e => handler e
  end.

Definition str := list ascii.

Definition code (c : ascii) : N := N_of_ascii c.

(** [str.lower] on one character: A-Z, and the upper-case letters of the
    Latin-1 block (U+00C0..U+00DE but the multiplication sign U+00D7). *)
Definition lower_char (c : ascii) : ascii :=
  let n := code c in
  if ((65 <=? n) && (n <=? 90)
      || (192 <=? n) && (n <=? 222) && negb (n =? 215))%N
  then ascii_of_N (n + 32) else c.

Definition lower (s : str) : str := map lower_char s.

(** The characters [str.split()] splits on ([str.isspace]). *)
Definition is_space (c : ascii) : bool :=
  let n := code c in
  ((9 <=? n) && (n <=? 13) || (28 <=? n) && (n <=? 32)
   || (n =? 133) || (n =? 160))%N.

(** [s.split()]: the maximal runs of non-space characters; [cur] is the
    run being read, reversed. *)
Fixpoint split_from (cur : str) (s : str) : list str :=
  match s with
  | [] => match cur with [] => [] | _ => [rev cur] end
  | c :: s' =>
      if is_space c
      then match cur with
           | [] => split_from [] s'
           | _ => rev cur :: split_from [] s'
           end
      else split_from (c :: cur) s'
  end.

Definition split (s : str) : list str := split_from [] s.

Definition ascii_eqb (a b : ascii) : bool := (code a =? code b)%N.

Fixpoint startswith (w s : str) : bool :=
  match w, s with
  | [], _ => true
  | _ :: _, [] => false
  | a :: w', b :: s' => ascii_eqb a b && startswith w' s'
  end.

(** [w in s] on strings: [w] occurs in [s] as a contiguous run. *)
Fixpoint contains (s w : str) : bool :=
  startswith w s
  || match s with
     | [] => false
     | _ :: s' => contains s' w
     end.

(** [len(l)] *)
Definition len {A} (l : list A) : Z := Z.of_nat (length l).

(** [l[:n]], also for a negative [n], which counts from the end. *)
Definition slice_to {A} (l : list A) (n : Z) : list A :=
  if n <? 0 then take (Z.to_nat (len l + n)) l else take (Z.to_nat n) l.

(** [l[i] = v] for a non-negative index: IndexError out of range. *)
Definition list_setitem {A} (l : list A) (i : nat) (v : A)
  : result (list A) :=
  if decide (i < length l)%nat then Ok (<[i := v]> l) else Raise IndexError.

(** [a / b] on integers ([b] positive), as the exact quotient. *)
Definition truediv (a b : Z) : Q := (a # Z.to_pos b)%Q.

(** A [dict]: keys in insertion order, each key once. *)
Section Dict.
Context {K V : Type} `{EqDecision K}.

Definition dict := list (K * V).

Fixpoint get (d : dict) (k : K) : option V :=
  match d with
  | [] => None
  | (k', v) :: d' => if decide (k' = k) then Some v else get d' k
  end.

(** [d.get(k, default)] *)
Definition get_default (d : dict) (k : K) (default : V) : V :=
  match get d k with
  | Some v => v
  | None => default
  end.

(** [d[k]]: KeyError on a missing key. *)
Definition getitem (d : dict) (k : K) : result V :=
  match get d k with
  | Some v => Ok v
  | None => Raise KeyError
  end.

(** [d[k] = v]: overwrite in place, or append a new key. *)
Fixpoint setitem (d : dict) (k : K) (v : V) : dict :=
  match d with
  | [] => [(k, v)]
  | (k', v') :: d' =>
      if decide (k' = k) then (k, v) :: d' else (k', v') :: setitem d' k v
  end.

Definition keys (d : dict) : list K := map fst d.
End Dict.
Arguments dict : clear implicits.

(** [sorted(l)] / [l.sort()] with the order [leb]: a stable sort (equal
    elements keep their relative order), here by insertion. *)
Section Sort.
Context {A : Type} (leb : A -> A -> bool).

Fixpoint insert_sorted (x : A) (l : list A) : list A :=
  match l with
  | [] => [x]
  | y :: l' => if leb x y then x :: l else y :: insert_sorted x l'
  end.

Fixpoint sorted (l : list A) : list A :=
  match l with
  | [] => []
  | x :: l' => insert_sorted x (sorted l')
  end.
End Sort.

(** A string literal. *)
Definition lit (x : string) : str := String.list_ascii_of_string x.

(** [sep.join(parts)] *)
Fixpoint join (sep : str) (parts : list str) : str :=
  match parts with
  | [] => []
  | [p] => p
  | p :: ps => p ++ sep ++ join sep ps
  end.

End Py.

(** ** The SQL the services send to PostgreSQL *)
Module Sql.
Import Py.

(** [s LIKE p]: [%] matches any run of characters, [_] any one
    character, a backslash makes the next pattern character literal.
    (A pattern ending in a lone backslash is refused by the server; the
    patterns sent here end in [%], so the case does not arise and is
    given no match.) *)
Fixpoint like (p : str) : str -> bool :=
  match p with
  | [] => fun s => match s with [] => true | _ :: _ => false end
  | c :: p' =>
      if ascii_eqb c "%" then
        fix any_run (s : str) : bool :=
          like p' s
          || match s with
             | [] => false
             | _ :: s' => any_run s'
             end
      else if ascii_eqb c "_" then
        fun s => match s with [] => false | _ :: s' => like p' s' end
      else if ascii_eqb c "\" then
        match p' with
        | [] => fun _ => false
        | e :: p'' =>
            fun s => match s with
                     | [] => false
                     | d :: s' => ascii_eqb e d && like p'' s'
                     end
        end
      else
        fun s => match s with
                 | [] => false
                 | d :: s' => ascii_eqb c d && like p' s'
                 end
  end.

(** [s ILIKE p]: LIKE on the lower-cased operands. *)
Definition ilike (s p : str) : bool := like (lower p) (lower s).

(** [... LIMIT n] on the rows of a scan; PostgreSQL refuses a negative
    [n] ("LIMIT must not be negative"). *)
Definition limit {A} (rows : list A) (n : Z) : result (list A) :=
  if n <? 0 then Raise DBError else Ok (take (Z.to_nat n) rows).

(** *** Vocabulary of the properties *)

(** A character with no special meaning in a LIKE pattern. *)
Definition plain_char (c : ascii) : Prop :=
  c <> "%"%char /\ c <> "_"%char /\ c <> "\"%char.

(** A query that reads as itself inside a LIKE pattern. *)
Definition plain (q : str) : Prop := Forall plain_char q.

#[global] Instance plain_char_dec c : Decision (plain_char c).
Proof. unfold plain_char. apply _. Defined.

#[global] Instance plain_dec q : Decision (plain q).
Proof. unfold plain. apply _. Defined.

End Sql.

Notation "x <- r ;; k" := (Py.bind r (fun x => k))
  (at level 100, r at next level, right associativity, only parsing).

(** ** app/services/search_service.py *)
Module Search.
Import Py.

(** [MinimalRAGPipeline.generate_embeddings], first loop: the number of
    occurrences of each character of [text.lower()]. *)
Definition count_chars (text : str) : dict ascii Z :=
  fold_left (fun chars char => setitem chars char (get_default chars char 0 + 1))
            (lower text) [].

Definition char_leb (a b : ascii) : bool := (code a <=? code b)%N.

(** Second loop, over [enumerate(sorted(chars.keys())[:100])] from index
    [i] on. *)
Fixpoint fill_embedding (chars : dict ascii Z) (text : str)
    (i : nat) (ks : list ascii) (embedding : list Q) : result (list Q) :=
  match ks with
  | [] => Ok embedding
  | char :: ks' =>
      n <- getitem chars char ;;
      embedding' <- list_setitem embedding i
                      (if 0 <? len text then truediv n (len text) else 0%Q) ;;
      fill_embedding chars text (S i) ks' embedding'
  end.

Definition generate_embeddings (text : str) : result (list Q) :=
  let chars := count_chars text in
  let embedding := replicate 100 0%Q in
  fill_embedding chars text 0 (slice_to (sorted char_leb (keys chars)) 100)
                 embedding.

(** *** The tables read by the search service *)

Record Book := {
  title : str;                (* nullable=False *)
  author_id : Z;
  genre_id : Z;
  summary : option str;
}.

Record Review := {
  review_book_id : Z;
  review_text : option str;
}.

(** The statements [db.execute] is called with. *)
Inductive Statement :=
| SelectBook (book_id : Z)
| SelectReviews (book_id : Z)
| SelectBooksTitleILike (pattern : str) (limit : Z)
| SelectAllBooks.

(** The database as one session sees it: the tables (keyed by primary
    key), and which statements the server fails to execute. *)
Record Db := {
  books : gmap Z Book;
  authors : gmap Z str;       (* id -> name *)
  genres : gmap Z str;        (* id -> name *)
  reviews : gmap Z Review;
  fails : Statement -> bool;
}.

(** [await db.execute(stmt)], then the rows computed by [rows]. *)
Definition execute {A} (db : Db) (stmt : Statement) (rows : result A)
  : result A :=
  if fails db stmt then Raise DBError else rows.

(** A book with [selectinload(Book.author)] and [selectinload(Book.genre)]. *)
Record LoadedBook := {
  id : Z;
  book : Book;
  author : option str;        (* [book.author.name], if [book.author] *)
  genre : option str;
}.

Definition load (db : Db) (row : Z * Book) : LoadedBook :=
  {| id := row.1; book := row.2;
     author := authors db !! author_id row.2;
     genre := genres db !! genre_id row.2 |}.

(** [select(Book).options(...).where(Book.id == book_id)],
    [scalar_one_or_none()] *)
Definition select_book (db : Db) (book_id : Z) : result (option LoadedBook) :=
  execute db (SelectBook book_id)
    (Ok ((fun b => load db (book_id, b)) <$> books db !! book_id)).

(** [select(Review).where(Review.book_id == book_id)], [scalars().all()] *)
Definition select_reviews (db : Db) (book_id : Z) : result (list Review) :=
  execute db (SelectReviews book_id)
    (Ok (filter (fun r => review_book_id r = book_id)
                (snd <$> map_to_list (reviews db)))).

(** [select(Book).options(...).where(Book.title.ilike(pattern)).limit(limit)] *)
Definition select_books_title_ilike (db : Db) (pattern : str) (limit : Z)
  : result (list LoadedBook) :=
  execute db (SelectBooksTitleILike pattern limit)
    (Sql.limit
       (load db <$> filter (fun row => Sql.ilike (title row.2) pattern = true)
                           (map_to_list (books db)))
       limit).

(** [select(Book)], [scalars().all()] *)
Definition select_all_books (db : Db) : result (list (Z * Book)) :=
  execute db SelectAllBooks (Ok (map_to_list (books db))).

(** *** MinimalRAGPipeline *)

Record Metadata := {
  m_book_id : Z;
  m_title : str;
  m_author : option str;
  m_genre : option str;
}.

(** A value of [embeddings_store]. *)
Record Entry := {
  embedding : list Q;
  metadata : Metadata;
  content : str;
}.

Inductive LogRecord :=
| LogError (book_id : Z) (e : exn)      (* logger.error, in index_book *)
| LogWarning (book_id : Z) (e : exn).   (* logger.warning, in reindex_all_books *)

(** The process-wide [rag_pipeline] and what the logger received. *)
Record Pipeline := {
  embeddings_store : dict Z Entry;
  log : list LogRecord;
}.

Definition truthy (s : option str) : bool :=
  match s with
  | Some (_ :: _) => true
  | _ => false
  end.

(** The text indexed for a book (the [content_parts] of [index_book]). *)
Definition book_content (b : LoadedBook) (reviews : list Review) : str :=
  let content_parts := [lit "Title: " ++ title (book b)] in
  let content_parts :=
    match author b with
    | Some name => content_parts ++ [lit "Author: " ++ name]
    | None => content_parts
    end in
  let content_parts :=
    match genre b with
    | Some name => content_parts ++ [lit "Genre: " ++ name]
    | None => content_parts
    end in
  let content_parts :=
    if truthy (summary (book b))
    then content_parts ++ [lit "Summary: " ++ default [] (summary (book b))]
    else content_parts in
  let content_parts :=
    match reviews with
    | [] => content_parts
    | _ :: _ =>
        let review_texts :=
          omap (fun r => if truthy (review_text r) then review_text r else None)
               reviews in
        match review_texts with
        | [] => content_parts
        | _ :: _ =>
            content_parts
            ++ [lit "Reviews: " ++ join (lit " ") (slice_to review_texts 3)]
        end
    end in
  join (lit " ") content_parts.

Definition book_metadata (b : LoadedBook) : Metadata :=
  {| m_book_id := id b; m_title := title (book b);
     m_author := author b; m_genre := genre b |}.

(** The body of the [try] of [index_book]. The store is assigned last, so
    when the body raises the pipeline is as it was. *)
Definition index_book_body (rag : Pipeline) (db : Db) (book_id : Z)
  : result Pipeline :=
  found <- select_book db book_id ;;
  match found with
  | None => Ok rag
  | Some b =>
      reviews <- select_reviews db book_id ;;
      let content := book_content b reviews in
      embedding <- generate_embeddings content ;;
      Ok {| embeddings_store :=
              setitem (embeddings_store rag) book_id
                {| embedding := embedding;
                   metadata := {| m_book_id := book_id;
                                  m_title := title (book b);
                                  m_author := author b;
                                  m_genre := genre b |};
                   content := content |};
            log := log rag |}
  end.

Definition index_book (rag : Pipeline) (db : Db) (book_id : Z)
  : result Pipeline :=
  try_except (index_book_body rag db book_id)
    (fun e => Ok {| embeddings_store := embeddings_store rag;
                    log := log rag ++ [LogError book_id e] |}).

(** An element of the list returned by a search. *)
Record Hit := {
  hit_book_id : Z;
  similarity_score : Q;
  hit_metadata : Metadata;
  hit_content : str;
}.

(** The inner loop of [search_similar_books]: [score] counts the query
    words found in the content. *)
Definition keyword_score (query_words : list str) (content_lower : str) : Z :=
  fold_left (fun score word =>
               if contains content_lower word then score + 1 else score)
            query_words 0.

(** [key=lambda x: x["similarity_score"], reverse=True] *)
Definition by_score_desc (a b : Hit) : bool :=
  Qle_bool (similarity_score b) (similarity_score a).

Definition search_similar_books (rag : Pipeline) (query : str) (n_results : Z)
  : list Hit :=
  match embeddings_store rag with
  | [] => []
  | _ :: _ =>
      let query_lower := lower query in
      let query_words := split query_lower in
      let results :=
        fold_left
          (fun results '(book_id, data) =>
             let content_lower := lower (content data) in
             let score := keyword_score query_words content_lower in
             if 0 <? score
             then results
                  ++ [{| hit_book_id := book_id;
                         similarity_score :=
                           match query_words with
                           | [] => 0%Q
                           | _ :: _ => truediv score (len query_words)
                           end;
                         hit_metadata := metadata data;
                         hit_content := content data |}]
             else results)
          (embeddings_store rag) [] in
      slice_to (sorted by_score_desc results) n_results
  end.

(** *** SearchService *)

Record SearchResponse := {
  query : str;
  results : list Hit;
}.

(** The element built for a book found by the database fallback. *)
Definition fallback_hit (b : LoadedBook) : Hit :=
  {| hit_book_id := id b;
     similarity_score := 1%Q;
     hit_metadata := book_metadata b;
     hit_content := lit "Title: " ++ title (book b) |}.

Definition search_books (rag : Pipeline) (db : Db) (query : str) (limit : Z)
  : result SearchResponse :=
  let results := search_similar_books rag query limit in
  results <- match results with
             | [] =>
                 books <- select_books_title_ilike db
                            (lit "%" ++ query ++ lit "%") limit ;;
                 Ok (fallback_hit <$> books)
             | _ :: _ => Ok results
             end ;;
  Ok {| query := query; results := results |}.

(** The dictionary [reindex_all_books] returns ([message] repeats
    [indexed_count]). *)
Record ReindexStats := {
  total_books : Z;
  indexed_count : Z;
  total_in_store : Z;
}.

(** The [for book in books] loop, with its own [try]/[except]. *)
Fixpoint reindex_loop (rag : Pipeline) (db : Db) (books : list (Z * Book))
    (indexed_count : Z) : Pipeline * Z :=
  match books with
  | [] => (rag, indexed_count)
  | row :: books' =>
      match index_book rag db row.1 with
      | Ok rag' => reindex_loop rag' db books' (indexed_count + 1)
      | Raise e =>
          reindex_loop {| embeddings_store := embeddings_store rag;
                          log := log rag ++ [LogWarning row.1 e] |}
                       db books' indexed_count
      end
  end.

Definition reindex_all_books (rag : Pipeline) (db : Db)
  : result (Pipeline * ReindexStats) :=
  books <- select_all_books db ;;
  let '(rag', indexed_count) := reindex_loop rag db books 0 in
  Ok (rag', {| total_books := len books;
               indexed_count := indexed_count;
               total_in_store := len (embeddings_store rag') |}).

(** *** Vocabulary of the properties *)

(** A frequency: a rational between 0 and 1. *)
Definition frequency (x : Q) : Prop := (0 <= x)%Q /\ (x <= 1)%Q.

(** After [k] characters, every count in [chars] is between 1 and [k]. *)
Definition counts_within (chars : dict ascii Z) (k : Z) : Prop :=
  forall c n, get chars c = Some n -> 1 <= n <= k.

Definition positive_score (h : Hit) : Prop := (0 < similarity_score h)%Q.

(** [a] may come before [b] in a list sorted by score, highest first. *)
Definition score_ge (a b : Hit) : Prop :=
  (similarity_score b <= similarity_score a)%Q.

(** The entry [index_book] stores for a book read as [b] with reviews
    [reviews], once its content has the fingerprint [embedding]. *)
Definition entry_of (book_id : Z) (b : LoadedBook) (reviews : list Review)
    (embedding : list Q) : Entry :=
  {| embedding := embedding;
     metadata := {| m_book_id := book_id; m_title := title (book b);
                    m_author := author b; m_genre := genre b |};
     content := book_content b reviews |}.

(** The pattern [f"%{query}%"]. *)
Definition title_pattern (query : str) : str := lit "%" ++ query ++ lit "%".

(** The rows of [books] whose title matches the pattern of [query]. *)
Definition matching_books (db : Db) (query : str) : list (Z * Book) :=
  filter (fun row => Sql.ilike (title row.2) (title_pattern query) = true)
         (map_to_list (books db)).

(** The rows of [books] whose lower-cased title contains the lower-cased
    query. *)
Definition books_containing (db : Db) (query : str) : list (Z * Book) :=
  filter (fun row => contains (lower (title row.2)) (lower query) = true)
         (map_to_list (books db)).

(** What a hit returned by the fallback for [query] looks like. *)
Definition fallback_result (db : Db) (query : str) (h : Hit) : Prop :=
  similarity_score h = 1%Q
  /\ exists b,
       books db !! hit_book_id h = Some b
       /\ Sql.ilike (title b) (title_pattern query) = true
       /\ hit_metadata h = {| m_book_id := hit_book_id h;
                              m_title := title b;
                              m_author := authors db !! author_id b;
                              m_genre := genres db !! genre_id b |}
       /\ hit_content h = lit "Title: " ++ title b.

End Search.

(** ** app/api/v1/routers/ingestion.py *)
Module Ingestion.
Import Py.

(** A row of [documents] (app/models/document.py). *)
Record Document := {
  filename : str;
  file_size : Z;
  uploaded_by : option Z;
  uploaded_at : Z;
  doc_status : string;        (* uploaded | ingested | failed *)
}.

(** A row of [ingestion_jobs] (app/models/ingestion_job.py). *)
Record IngestionJob := {
  document_id : Z;
  status : string;            (* pending | running | completed | failed *)
  created_at : Z;
}.

#[global] Instance IngestionJob_eq_dec : EqDecision IngestionJob.
Proof. solve_decision. Defined.

(** The two tables, and the tasks handed to [asyncio.create_task] that
    have not run yet (each is [process_ingestion_job(job_id)]). *)
Record State := {
  documents : gmap Z Document;
  ingestion_jobs : gmap Z IngestionJob;
  tasks : list Z;
}.

(** The primary key the store assigns to an inserted row. *)
Definition next_id {A} (table : gmap Z A) : Z :=
  1 + map_fold (fun k _ acc => Z.max k acc) 0 table.

(** [DocumentService.get_document] *)
Definition get_document (s : State) (document_id : Z) : result Document :=
  match documents s !! document_id with
  | Some doc => Ok doc
  | None => Raise DocumentNotFoundError
  end.

(** [POST /ingestion/trigger/{document_id}], served at instant [now] (the
    [server_default=func.now()] of [created_at]): the state the request
    leaves, and what it answers ([job.id], or the exception raised). *)
Definition trigger_ingestion (now : Z) (s : State) (document_id : Z)
  : State * result Z :=
  match get_document s document_id with
  | Raise e => (s, Raise e)
  | Ok _ =>
      let job := {| document_id := document_id; status := "running";
                    created_at := now |} in
      let job_id := next_id (ingestion_jobs s) in
      ({| documents := documents s;
          ingestion_jobs := <[job_id := job]> (ingestion_jobs s);
          tasks := tasks s ++ [job_id] |},
       Ok job_id)
  end.

Definition set_status (st : string) (job : IngestionJob) : IngestionJob :=
  {| document_id := document_id job; status := st;
     created_at := created_at job |}.

(** [process_ingestion_job(job_id)], once its sleep is over. *)
Definition process_ingestion_job (s : State) (job_id : Z) : State :=
  match ingestion_jobs s !! job_id with
  | Some job =>
      {| documents := documents s;
         ingestion_jobs := <[job_id := set_status "completed" job]>
                             (ingestion_jobs s);
         tasks := tasks s |}
  | None => s
  end.

(** [GET /ingestion/status/{job_id}] *)
Definition ingestion_status (s : State) (job_id : Z) : result (string * Z) :=
  match ingestion_jobs s !! job_id with
  | Some job => Ok (status job, created_at job)
  | None => Raise (HTTPException 404)
  end.

(** An element of the list [GET /ingestion/jobs] returns. *)
Record JobInfo := {
  info_id : Z;
  info_document_id : Z;
  info_filename : str;
  info_status : string;
  info_created_at : Z;
}.

(** [.join(Document, IngestionJob.document_id == Document.id)] on one job. *)
Definition join_document (s : State) (row : Z * IngestionJob)
  : option JobInfo :=
  doc ← documents s !! document_id row.2;
  Some {| info_id := row.1;
          info_document_id := document_id row.2;
          info_filename := filename doc;
          info_status := status row.2;
          info_created_at := created_at row.2 |}.

(** [.order_by(IngestionJob.created_at.desc())] *)
Definition newest_first (a b : JobInfo) : bool :=
  info_created_at b <=? info_created_at a.

Definition list_ingestion_jobs (s : State) : list JobInfo :=
  sorted newest_first (omap (join_document s) (map_to_list (ingestion_jobs s))).

(** [timedelta(minutes=n)] *)
Definition minutes (n : Z) : Z := n * 60 * 1000000.

(** The [where] clause of [complete_stuck_jobs]. *)
Definition stuck (cutoff_time : Z) (row : Z * IngestionJob) : Prop :=
  status row.2 = "running" ∧ created_at row.2 < cutoff_time.

#[global] Instance stuck_dec cutoff_time row : Decision (stuck cutoff_time row).
Proof. unfold stuck. apply _. Defined.

(** [POST /ingestion/complete-stuck-jobs], served at instant [now]
    ([datetime.now()]); returns the state it leaves and
    [completed_jobs]. *)
Definition complete_stuck_jobs (now : Z) (s : State) : State * Z :=
  let cutoff_time := now - minutes 5 in
  let stuck_jobs := filter (stuck cutoff_time) (ingestion_jobs s) in
  ({| documents := documents s;
      ingestion_jobs := (set_status "completed" <$> stuck_jobs)
                        ∪ ingestion_jobs s;
      tasks := tasks s |},
   Z.of_nat (size stuck_jobs)).

(** One step of the tracker: a request is served, or a scheduled
    background task runs. *)
Inductive step : State -> State -> Prop :=
| step_trigger now s document_id :
    step s (trigger_ingestion now s document_id).1
| step_background s job_id before after :
    tasks s = before ++ job_id :: after ->
    step s (process_ingestion_job
              {| documents := documents s;
                 ingestion_jobs := ingestion_jobs s;
                 tasks := before ++ after |} job_id)
| step_status s job_id answer :
    ingestion_status s job_id = answer ->
    step s s
| step_list s answer :
    list_ingestion_jobs s = answer ->
    step s s
| step_sweep now s :
    step s (complete_stuck_jobs now s).1.

(** The states the tracker reaches from [s]. *)
Inductive steps : State -> State -> Prop :=
| steps_refl s : steps s s
| steps_next s1 s2 s3 : steps s1 s2 -> step s2 s3 -> steps s1 s3.

(** *** Vocabulary of the properties *)

(** The row the sweep leaves for a row [job] it found at instant [now]. *)
Definition swept (now : Z) (job : IngestionJob) : IngestionJob :=
  if decide (status job = "running" /\ created_at job < now - minutes 5)
  then set_status "completed" job
  else job.

(** The foreign key of [IngestionJob.document_id]: every job row refers to
    a row of [documents]. *)
Definition documents_exist (s : State) : Prop :=
  forall job_id job,
    ingestion_jobs s !! job_id = Some job ->
    is_Some (documents s !! document_id job).

(** [a] may come before [b] in a list ordered newest first. *)
Definition not_older (a b : JobInfo) : Prop :=
  info_created_at b <= info_created_at a.

(** [info] is the job row under its id, with the filename of the row's
    document. *)
Definition describes (s : State) (info : JobInfo) : Prop :=
  exists job doc,
    ingestion_jobs s !! info_id info = Some job
    /\ documents s !! document_id job = Some doc
    /\ info_document_id info = document_id job
    /\ info_filename info = filename doc
    /\ info_status info = status job
    /\ info_created_at info = created_at job.

End Ingestion.

(** ** Sample data *)
Module Examples.
Import Py Search Ingestion.

Definition dune : Book :=
  {| title := lit "Dune"; author_id := 1; genre_id := 1;
     summary := Some (lit "Sand and worms") |}.

Definition emma : Book :=
  {| title := lit "Emma"; author_id := 2; genre_id := 2; summary := None |}.

Definition dune_messiah : Book :=
  {| title := lit "Dune Messiah"; author_id := 1; genre_id := 1;
     summary := None |}.

Definition praise : Review :=
  {| review_book_id := 1; review_text := Some (lit "Great") |}.

(** Two books, and a server that executes every statement. *)
Definition library : Db :=
  {| books := <[2 := emma]> (<[1 := dune]> ∅);
     authors := <[2 := lit "Austen"]> (<[1 := lit "Herbert"]> ∅);
     genres := <[1 := lit "Science Fiction"]> ∅;
     reviews := <[1 := praise]> ∅;
     fails := fun _ => false |}.

(** The same library after book 1 was renamed. *)
Definition library_renamed : Db :=
  {| books := <[1 := dune_messiah]> (books library);
     authors := authors library;
     genres := genres library;
     reviews := ∅;
     fails := fun _ => false |}.

(** The same library, on a server that fails to read book 2. *)
Definition library_failing : Db :=
  {| books := books library;
     authors := authors library;
     genres := genres library;
     reviews := reviews library;
     fails := fun stmt => match stmt with
                          | SelectBook 2 => true
                          | _ => false
                          end |}.

(** The pipeline of a process that has just started. *)
Definition fresh : Pipeline := {| embeddings_store := []; log := [] |}.

(** The pipeline after [reindex_all_books] on [library]. *)
Definition indexed : Pipeline :=
  match reindex_all_books fresh library with
  | Ok (rag, _) => rag
  | Raise _ => fresh
  end.

Definition report : Document :=
  {| filename := lit "report.pdf"; file_size := 1024; uploaded_by := None;
     uploaded_at := 0; doc_status := "uploaded" |}.

(** The instant at which the sample requests are served. *)
Definition noon : Z := minutes 720.

Definition old_running : IngestionJob :=
  {| document_id := 7; status := "running"; created_at := noon - minutes 10 |}.

Definition young_running : IngestionJob :=
  {| document_id := 7; status := "running"; created_at := noon - minutes 1 |}.

Definition old_completed : IngestionJob :=
  {| document_id := 7; status := "completed";
     created_at := noon - minutes 60 |}.

(** One document and no job. *)
Definition uploaded : State :=
  {| documents := <[7 := report]> ∅; ingestion_jobs := ∅; tasks := [] |}.

(** One document and three jobs; the task of job 2 is still scheduled. *)
Definition three_jobs : State :=
  {| documents := <[7 := report]> ∅;
     ingestion_jobs := <[3 := old_completed]>
                         (<[2 := young_running]> (<[1 := old_running]> ∅));
     tasks := [2] |}.

(** [three_jobs] after a trigger for document 7, the task of job 2 and a
    sweep, all at [noon]. *)
Definition three_jobs_later : State :=
  (complete_stuck_jobs noon
     (process_ingestion_job
        {| documents := documents (trigger_ingestion noon three_jobs 7).1;
           ingestion_jobs :=
             ingestion_jobs (trigger_ingestion noon three_jobs 7).1;
           tasks := [] ++ [4] |}
        2)).1.

End Examples.

(** * Properties *)

(** ** Facts about the built-ins *)
Module PyFacts.
Import Py.

Lemma ascii_eqb_eq (a b : ascii) : ascii_eqb a b = true <-> a = b.
Proof.
  unfold ascii_eqb, code. rewrite N.eqb_eq. split; [|congruence].
  intros H. rewrite <- (ascii_N_embedding a), <- (ascii_N_embedding b).
  congruence.
Qed.

Lemma length_lower (s : str) : length (lower s) = length s.
Proof. apply length_map. Qed.

Section DictFacts.
Context {K V : Type} `{EqDecision K}.
Implicit Types (d : dict K V) (k : K) (v : V).

Lemma get_setitem d k v k' :
  get (setitem d k v) k' = if decide (k = k') then Some v else get d k'.
Proof.
  induction d as [|[k0 v0] d IH]; simpl.
  - repeat case_decide; congruence.
  - destruct (decide (k0 = k)) as [->|Hne]; simpl.
    + repeat case_decide; congruence.
    + rewrite IH. repeat case_decide; congruence.
Qed.

Lemma get_setitem_eq d k v : get (setitem d k v) k = Some v.
Proof. rewrite get_setitem. by case_decide. Qed.

Lemma get_setitem_ne d k v k' : k <> k' -> get (setitem d k v) k' = get d k'.
Proof. intros. rewrite get_setitem. by case_decide. Qed.

Lemma keys_setitem_present d k v :
  is_Some (get d k) -> keys (setitem d k v) = keys d.
Proof.
  unfold keys. induction d as [|[k0 v0] d IH]; simpl.
  - intros [? ?]; discriminate.
  - destruct (decide (k0 = k)) as [->|Hne]; simpl; [done|].
    intros Hs. by rewrite IH.
Qed.

Lemma length_setitem_present d k v :
  is_Some (get d k) -> length (setitem d k v) = length d.
Proof.
  intros Hs. rewrite <- (length_map fst (setitem d k v)), <- (length_map fst d).
  apply (f_equal length (keys_setitem_present d k v Hs)).
Qed.

Lemma length_setitem_absent d k v :
  get d k = None -> length (setitem d k v) = S (length d).
Proof.
  induction d as [|[k0 v0] d IH]; simpl; [done|].
  destruct (decide (k0 = k)); [discriminate|].
  intros Hn. simpl. by rewrite IH.
Qed.

Lemma get_of_key d k : k ∈ keys d -> is_Some (get d k).
Proof.
  unfold keys. induction d as [|[k0 v0] d IH]; simpl.
  - intros Hin. by apply elem_of_nil in Hin.
  - intros Hin. destruct (decide (k0 = k)); [eauto|].
    apply elem_of_cons in Hin as [Heq|Hin]; [congruence | auto].
Qed.
End DictFacts.

Section SortFacts.
Context {A : Type} (leb : A -> A -> bool).

Lemma insert_sorted_perm x l : insert_sorted leb x l ≡ₚ x :: l.
Proof.
  induction l as [|y l IH]; simpl; [done|].
  destruct (leb x y); [done|]. rewrite IH. apply Permutation_swap.
Qed.

Lemma sorted_perm l : sorted leb l ≡ₚ l.
Proof.
  induction l as [|x l IH]; simpl; [done|].
  by rewrite insert_sorted_perm, IH.
Qed.

Hypothesis leb_total : forall a b, leb a b = true \/ leb b a = true.

Lemma insert_sorted_Sorted x l :
  Sorted (fun a b => leb a b = true) l ->
  Sorted (fun a b => leb a b = true) (insert_sorted leb x l).
Proof.
  induction 1 as [|y l Hl IH Hhd]; simpl.
  - repeat constructor.
  - destruct (leb x y) eqn:Hxy.
    + repeat constructor; auto.
    + constructor; [exact IH|].
      destruct (leb_total x y) as [Hc|Hyx]; [congruence|].
      destruct Hhd as [|z l' Hyz]; simpl.
      * by constructor.
      * destruct (leb x z); by constructor.
Qed.

Lemma sorted_Sorted l : Sorted (fun a b => leb a b = true) (sorted leb l).
Proof.
  induction l as [|x l IH]; simpl; [constructor|].
  by apply insert_sorted_Sorted.
Qed.
End SortFacts.

Lemma Sorted_weaken {A} (R R' : A -> A -> Prop) (l : list A) :
  (forall a b, R a b -> R' a b) -> Sorted R l -> Sorted R' l.
Proof.
  intros HR. induction 1 as [|x l Hl IH Hhd]; constructor; [done|].
  destruct Hhd; constructor; auto.
Qed.

Lemma StronglySorted_take {A} (R : A -> A -> Prop) (l : list A) (n : nat) :
  StronglySorted R l -> StronglySorted R (take n l).
Proof.
  intros Hl. revert n. induction Hl as [|x l Hl IH Hx]; intros [|n]; simpl;
    try constructor; auto.
  by apply Forall_take.
Qed.

Lemma slice_to_sublist {A} (l : list A) (n : Z) :
  exists k, slice_to l n = take k l.
Proof. unfold slice_to. destruct (n <? 0); eauto. Qed.

Lemma len_slice_to {A} (l : list A) (n : Z) : 0 <= n -> len (slice_to l n) <= n.
Proof.
  intros Hn. unfold slice_to, len.
  destruct (n <? 0) eqn:Hneg; [lia|].
  pose proof (firstn_le_length (Z.to_nat n) l). lia.
Qed.

Lemma truediv_bounds (a b : Z) :
  0 <= a <= b -> 0 < b -> (0 <= truediv a b)%Q /\ (truediv a b <= 1)%Q.
Proof.
  intros Ha Hb. unfold truediv, Qle; simpl.
  rewrite Z2Pos.id by lia. lia.
Qed.

Lemma truediv_pos (a b : Z) : 0 < a -> (0 < truediv a b)%Q.
Proof. intros Ha. unfold truediv, Qlt; simpl. lia. Qed.

End PyFacts.

(** ** Facts about LIKE patterns *)
Module SqlFacts.
Import Py PyFacts Sql.

Lemma ascii_eqb_ne a b : a <> b -> ascii_eqb a b = false.
Proof.
  intros Hne. destruct (ascii_eqb a b) eqn:H; [|done].
  by apply ascii_eqb_eq in H.
Qed.

(** [%] followed by [p]: [p] matches the string, or the same pattern
    matches its tail. *)
Lemma like_percent p s :
  like ("%"%char :: p) s
  = like p s || match s with
                | [] => false
                | _ :: s' => like ("%"%char :: p) s'
                end.
Proof. destruct s; reflexivity. Qed.

Lemma like_plain_cons c p s :
  plain_char c ->
  like (c :: p) s
  = match s with
    | [] => false
    | d :: s' => ascii_eqb c d && like p s'
    end.
Proof.
  intros (Hpc & Hus & Hbs). simpl.
  by rewrite !ascii_eqb_ne.
Qed.

Lemma like_trailing_percent s : like ["%"%char] s = true.
Proof.
  induction s as [|c s IH]; [reflexivity|].
  rewrite like_percent. rewrite IH. apply orb_true_r.
Qed.

Lemma like_plain_prefix q : forall s,
  plain q -> like (q ++ ["%"%char]) s = startswith q s.
Proof.
  induction q as [|c q IH]; intros s Hq.
  - simpl app. rewrite like_trailing_percent. by destruct s.
  - apply Forall_cons in Hq as [Hc Hq].
    change ((c :: q) ++ ["%"%char]) with (c :: (q ++ ["%"%char])).
    rewrite like_plain_cons by done.
    destruct s as [|d s]; [done|]. simpl. by rewrite IH.
Qed.

(** A plain query between two [%] matches the strings that contain it. *)
Lemma like_plain_contains q s :
  plain q -> like ("%"%char :: q ++ ["%"%char]) s = contains s q.
Proof.
  intros Hq. induction s as [|d s IH].
  - rewrite like_percent, like_plain_prefix by done. reflexivity.
  - rewrite like_percent, like_plain_prefix by done. rewrite IH. reflexivity.
Qed.

Lemma lower_char_plain c : plain_char c -> plain_char (lower_char c).
Proof.
  unfold plain_char.
  destruct c as [[] [] [] [] [] [] [] []]; vm_compute; intros (? & ? & ?);
    repeat split; congruence.
Qed.

Lemma lower_plain q : plain q -> plain (lower q).
Proof.
  unfold plain, lower. intros Hq. apply Forall_fmap.
  eapply Forall_impl; [exact Hq|]. intros c. apply lower_char_plain.
Qed.

Lemma lower_pattern q :
  lower (lit "%" ++ q ++ lit "%") = "%"%char :: lower q ++ ["%"%char].
Proof. unfold lower. simpl. by rewrite map_app. Qed.

(** For a plain query, [title ILIKE '%query%'] is the containment of the
    lower-cased query in the lower-cased title. *)
Lemma ilike_plain_contains title q :
  plain q ->
  ilike title (lit "%" ++ q ++ lit "%") = contains (lower title) (lower q).
Proof.
  intros Hq. unfold ilike. rewrite lower_pattern.
  apply like_plain_contains. by apply lower_plain.
Qed.

Lemma ilike_empty_query title : ilike title (lit "%" ++ [] ++ lit "%") = true.
Proof.
  rewrite ilike_plain_contains by constructor. simpl.
  by destruct (lower title).
Qed.

End SqlFacts.

(** ** The lexical index and the query matcher *)
Module SearchSpec.
Import Py PyFacts Search.

Lemma count_step chars k c :
  0 <= k -> counts_within chars k ->
  counts_within (setitem chars c (get_default chars c 0 + 1)) (k + 1).
Proof.
  intros Hk Hinv c' n. rewrite get_setitem. case_decide as Hc.
  - intros [= <-]. unfold get_default.
    destruct (get chars c) as [m|] eqn:Hm; [|lia].
    specialize (Hinv c m Hm). lia.
  - intros Hn. specialize (Hinv c' n Hn). lia.
Qed.

Lemma fold_counts_within s chars k :
  0 <= k -> counts_within chars k ->
  counts_within
    (fold_left (fun chars char =>
                  setitem chars char (get_default chars char 0 + 1)) s chars)
    (k + len s).
Proof.
  revert chars k. induction s as [|c s IH]; intros chars k Hk Hinv; simpl.
  - unfold len; simpl. by rewrite Z.add_0_r.
  - replace (k + len (c :: s)) with ((k + 1) + len s)
      by (unfold len; simpl length; lia).
    apply IH; [lia|]. by apply count_step.
Qed.

Lemma count_chars_within text : counts_within (count_chars text) (len text).
Proof.
  unfold count_chars.
  replace (len text) with (0 + len (lower text))
    by (unfold len; rewrite length_lower; lia).
  apply fold_counts_within; [lia|]. intros c n; discriminate.
Qed.

Lemma fill_embedding_ok chars text ks : forall i embedding,
  (forall c, c ∈ ks -> is_Some (get chars c)) ->
  counts_within chars (len text) ->
  (i + length ks <= length embedding)%nat ->
  Forall frequency embedding ->
  exists embedding',
    fill_embedding chars text i ks embedding = Ok embedding'
    /\ length embedding' = length embedding
    /\ Forall frequency embedding'.
Proof.
  induction ks as [|c ks IH]; intros i embedding Hks Hcnt Hlen Hall; simpl.
  - eauto.
  - destruct (Hks c) as [n Hn]; [by left|].
    unfold getitem. rewrite Hn. simpl.
    unfold list_setitem. simpl length in Hlen.
    rewrite decide_True by lia. simpl.
    destruct (IH (S i) (<[i := if 0 <? len text then truediv n (len text)
                               else 0%Q]> embedding))
      as (embedding' & Hrun & Hlen' & Hall').
    + intros c' Hc'. apply Hks. by right.
    + done.
    + rewrite length_insert. lia.
    + apply Forall_insert; [done|].
      destruct (0 <? len text) eqn:Hpos.
      * apply truediv_bounds; [|lia]. specialize (Hcnt c n Hn). lia.
      * split; unfold Qle; simpl; lia.
    + exists embedding'. rewrite length_insert in Hlen'. eauto.
Qed.

(** The characters the second loop visits: at most 100, each a key of
    the counts. *)
Lemma visited_chars (text : str) :
  let ks := slice_to (sorted char_leb (keys (count_chars text))) 100 in
  (forall c, c ∈ ks -> is_Some (get (count_chars text) c))
  /\ (length ks <= 100)%nat.
Proof.
  intros ks. split.
  - intros c Hc. unfold ks in Hc.
    destruct (slice_to_sublist (sorted char_leb (keys (count_chars text))) 100)
      as [k Hk].
    rewrite Hk in Hc. apply elem_of_take in Hc as (j & Hj & _).
    apply list_elem_of_lookup_2 in Hj. rewrite sorted_perm in Hj.
    by apply get_of_key.
  - pose proof (len_slice_to (sorted char_leb (keys (count_chars text))) 100).
    unfold ks, len in *. lia.
Qed.

(** [generate_embeddings] returns for every text. *)
Lemma generate_embeddings_returns (text : str) :
  exists embedding, generate_embeddings text = Ok embedding.
Proof.
  destruct (visited_chars text) as [Hkeys Hshort].
  destruct (fill_embedding_ok (count_chars text) text
              (slice_to (sorted char_leb (keys (count_chars text))) 100)
              0%nat (replicate 100 0%Q) Hkeys (count_chars_within text))
    as (embedding & Hrun & _).
  - rewrite length_replicate. lia.
  - apply Forall_replicate. split; unfold Qle; simpl; lia.
  - by exists embedding.
Qed.

(** C2. For every text, [generate_embeddings] returns (it raises neither
    KeyError nor IndexError) a fingerprint of exactly 100 entries, each a
    rational in the closed interval from 0 to 1; for the empty text the
    fingerprint is 100 zeros. *)
Theorem generate_embeddings_fingerprint (text : str) :
  (exists embedding,
      generate_embeddings text = Ok embedding
      /\ length embedding = 100%nat
      /\ Forall frequency embedding)
  /\ generate_embeddings [] = Ok (replicate 100 0%Q).
Proof.
  split; [|reflexivity].
  destruct (visited_chars text) as [Hkeys Hshort].
  assert (Hzeros : Forall frequency (replicate 100 0%Q)).
  { apply Forall_replicate. split; unfold Qle; simpl; lia. }
  destruct (fill_embedding_ok (count_chars text) text
              (slice_to (sorted char_leb (keys (count_chars text))) 100)
              0%nat (replicate 100 0%Q) Hkeys (count_chars_within text))
    as (embedding & Hrun & Hlen & Hall); [|exact Hzeros|].
  - rewrite length_replicate. lia.
  - exists embedding. rewrite length_replicate in Hlen.
    unfold generate_embeddings. by rewrite Hrun.
Qed.


(** *** The query matcher *)

Lemma by_score_desc_total a b :
  by_score_desc a b = true \/ by_score_desc b a = true.
Proof.
  unfold by_score_desc. rewrite !Qle_bool_iff.
  destruct (Qlt_le_dec (similarity_score a) (similarity_score b)) as [Hlt|Hle].
  - right. by apply Qlt_le_weak.
  - by left.
Qed.

#[local] Instance score_ge_trans : Transitive score_ge.
Proof. intros a b c Hab Hbc. unfold score_ge in *. by eapply Qle_trans. Qed.

Lemma sorted_by_score l : StronglySorted score_ge (sorted by_score_desc l).
Proof.
  apply Sorted_StronglySorted; [apply _|].
  eapply Sorted_weaken; [|apply (sorted_Sorted _ by_score_desc_total)].
  intros a b Hab. by apply Qle_bool_iff in Hab.
Qed.

Lemma keyword_score_nil content_lower : keyword_score [] content_lower = 0.
Proof. reflexivity. Qed.

(** The loop over the store only appends hits of positive score. *)
Lemma matches_positive query_words store : forall results,
  Forall positive_score results ->
  Forall positive_score
    (fold_left
       (fun results '(book_id, data) =>
          let content_lower := lower (content data) in
          let score := keyword_score query_words content_lower in
          if 0 <? score
          then results
               ++ [{| hit_book_id := book_id;
                      similarity_score :=
                        match query_words with
                        | [] => 0%Q
                        | _ :: _ => truediv score (len query_words)
                        end;
                      hit_metadata := metadata data;
                      hit_content := content data |}]
          else results)
       store results).
Proof.
  induction store as [|[book_id data] store IH]; intros results Hpos; simpl.
  - done.
  - apply IH.
    destruct (0 <? keyword_score query_words (lower (content data))) eqn:Hs;
      [|done].
    apply Forall_app; split; [done|]. constructor; [|constructor].
    unfold positive_score; simpl. apply Z.ltb_lt in Hs.
    destruct query_words as [|w ws]; [by rewrite keyword_score_nil in Hs|].
    by apply truediv_pos.
Qed.

(** With no query word, the loop over the store appends nothing. *)
Lemma matches_no_words (store : dict Z Entry) : forall results : list Hit,
  fold_left
    (fun results '(book_id, data) =>
       let content_lower := lower (content data) in
       let score := keyword_score [] content_lower in
       if 0 <? score
       then results
            ++ [{| hit_book_id := book_id;
                   similarity_score := 0%Q;
                   hit_metadata := metadata data;
                   hit_content := content data |}]
       else results)
    store results = results.
Proof.
  induction store as [|[book_id data] store IH]; intros results; simpl; auto.
Qed.

Lemma search_similar_books_empty_query rag n_results :
  search_similar_books rag [] n_results = [].
Proof.
  unfold search_similar_books.
  destruct (embeddings_store rag) as [|kv store]; [done|].
  change (split (lower [])) with (@nil str).
  rewrite matches_no_words. simpl. unfold slice_to.
  destruct (n_results <? 0); apply take_nil.
Qed.

(** C1, as the code has it. For every pipeline, query and [n_results],
    [search_similar_books] returns only hits of score strictly above 0,
    sorted by score from the highest down; when [n_results] is not
    negative it returns at most [n_results] hits. The empty query has no
    term, gives every entry the score 0, and returns the empty list. *)
Theorem search_similar_books_ranked rag (query : str) (n_results : Z) :
  Forall positive_score (search_similar_books rag query n_results)
  /\ StronglySorted score_ge (search_similar_books rag query n_results)
  /\ (0 <= n_results ->
      len (search_similar_books rag query n_results) <= n_results)
  /\ split (lower []) = []
  /\ (forall content_lower,
        keyword_score (split (lower [])) content_lower = 0)
  /\ search_similar_books rag [] n_results = [].
Proof.
  split; [|split; [|split; [|split; [|split]]]].
  - unfold search_similar_books.
    destruct (embeddings_store rag) as [|kv store] eqn:Hstore; [constructor|].
    rewrite <- Hstore.
    match goal with
    | |- Forall _ (slice_to ?l _) =>
        destruct (slice_to_sublist l n_results) as [k ->]
    end.
    apply Forall_take. rewrite sorted_perm.
    apply matches_positive. constructor.
  - unfold search_similar_books.
    destruct (embeddings_store rag) as [|kv store] eqn:Hstore; [constructor|].
    match goal with
    | |- StronglySorted _ (slice_to ?l _) =>
        destruct (slice_to_sublist l n_results) as [k ->]
    end.
    apply StronglySorted_take, sorted_by_score.
  - intros Hn. unfold search_similar_books.
    destruct (embeddings_store rag) as [|kv store] eqn:Hstore;
      [unfold len; simpl; lia|].
    by apply len_slice_to.
  - reflexivity.
  - reflexivity.
  - apply search_similar_books_empty_query.
Qed.

(** *** The lexical indexer *)

Lemma index_book_body_write rag db book_id b reviews :
  select_book db book_id = Ok (Some b) ->
  select_reviews db book_id = Ok reviews ->
  exists embedding,
    generate_embeddings (book_content b reviews) = Ok embedding
    /\ index_book_body rag db book_id
       = Ok {| embeddings_store :=
                 setitem (embeddings_store rag) book_id
                   (entry_of book_id b reviews embedding);
               log := log rag |}.
Proof.
  intros Hb Hr.
  destruct (generate_embeddings_returns (book_content b reviews))
    as (embedding & Hemb).
  exists embedding. split; [done|].
  unfold index_book_body. rewrite Hb. simpl. rewrite Hr. simpl.
  by rewrite Hemb.
Qed.

Lemma index_book_write rag db book_id b reviews :
  select_book db book_id = Ok (Some b) ->
  select_reviews db book_id = Ok reviews ->
  exists embedding,
    generate_embeddings (book_content b reviews) = Ok embedding
    /\ index_book rag db book_id
       = Ok {| embeddings_store :=
                 setitem (embeddings_store rag) book_id
                   (entry_of book_id b reviews embedding);
               log := log rag |}.
Proof.
  intros Hb Hr.
  destruct (index_book_body_write rag db book_id b reviews Hb Hr)
    as (embedding & Hemb & Hbody).
  exists embedding. split; [done|]. unfold index_book. by rewrite Hbody.
Qed.

(** Whatever happens inside, [index_book] returns, and it leaves the store
    as it was or with the one key [book_id] assigned. *)
Lemma index_book_returns rag db book_id :
  exists rag',
    index_book rag db book_id = Ok rag'
    /\ (embeddings_store rag' = embeddings_store rag
        \/ exists entry,
             embeddings_store rag'
             = setitem (embeddings_store rag) book_id entry).
Proof.
  unfold index_book, index_book_body, execute.
  destruct (select_book db book_id) as [[b|]|e] eqn:Hb; simpl; eauto.
  destruct (select_reviews db book_id) as [reviews|e] eqn:Hr; simpl; eauto.
  destruct (generate_embeddings (book_content b reviews)) as [embedding|e];
    simpl; eauto.
Qed.

(** C6. Index the same book id twice, the book and its reviews being read
    first as [b1], [reviews1] and then as [b2], [reviews2]. Both calls
    return; the second leaves the keys of the index table as the first left
    them (same keys, same order, so the table has not grown); the entry
    under the id is the one built from the second read: its fingerprint,
    its metadata and its raw text; and every other id has the entry it had
    before the two calls. *)
Theorem index_book_last_write_wins rag db1 db2 (book_id : Z) b1 reviews1
    b2 reviews2 :
  select_book db1 book_id = Ok (Some b1) ->
  select_reviews db1 book_id = Ok reviews1 ->
  select_book db2 book_id = Ok (Some b2) ->
  select_reviews db2 book_id = Ok reviews2 ->
  exists rag1 rag2 embedding2,
    index_book rag db1 book_id = Ok rag1
    /\ index_book rag1 db2 book_id = Ok rag2
    /\ keys (embeddings_store rag2) = keys (embeddings_store rag1)
    /\ len (embeddings_store rag2) = len (embeddings_store rag1)
    /\ generate_embeddings (book_content b2 reviews2) = Ok embedding2
    /\ get (embeddings_store rag2) book_id
       = Some (entry_of book_id b2 reviews2 embedding2)
    /\ (forall other : Z,
          other <> book_id ->
          get (embeddings_store rag2) other = get (embeddings_store rag) other).
Proof.
  intros Hb1 Hr1 Hb2 Hr2.
  destruct (index_book_write rag db1 book_id b1 reviews1 Hb1 Hr1)
    as (embedding1 & _ & Hfirst).
  eexists. rewrite Hfirst.
  destruct (index_book_write
              {| embeddings_store :=
                   setitem (embeddings_store rag) book_id
                     (entry_of book_id b1 reviews1 embedding1);
                 log := log rag |} db2 book_id b2 reviews2 Hb2 Hr2)
    as (embedding2 & Hemb2 & Hsecond).
  eexists. exists embedding2. rewrite Hsecond. simpl.
  assert (Hpresent : is_Some
            (get (setitem (embeddings_store rag) book_id
                    (entry_of book_id b1 reviews1 embedding1)) book_id)).
  { rewrite get_setitem_eq. eauto. }
  split; [done|]. split; [done|].
  split; [by apply keys_setitem_present|].
  split; [unfold len; f_equal; by apply length_setitem_present|].
  split; [done|].
  split; [apply get_setitem_eq|].
  intros other Hother. simpl. by rewrite !get_setitem_ne.
Qed.

(** *** Failures of indexing *)

(** The loop of [reindex_all_books] counts every book. *)
Lemma reindex_loop_counts db books : forall rag indexed_count,
  (reindex_loop rag db books indexed_count).2 = indexed_count + len books.
Proof.
  induction books as [|row books IH]; intros rag indexed_count; simpl.
  - unfold len; simpl. lia.
  - destruct (index_book_returns rag db row.1) as (rag' & -> & _).
    rewrite IH. unfold len; simpl length. lia.
Qed.

(** C9. [index_book] returns normally for every pipeline, database and
    book id: when its body raises [e], it returns with the store untouched
    and the error logged. So the loop of [reindex_all_books] never takes
    its [except] branch: once the list of books has been read,
    [reindex_all_books] returns, with [indexed_count] equal to
    [total_books], the number of books read. *)
Theorem indexing_failures_suppressed rag db :
  (forall book_id,
      exists rag', index_book rag db book_id = Ok rag'
                   /\ forall e,
                        index_book_body rag db book_id = Raise e ->
                        rag' = {| embeddings_store := embeddings_store rag;
                                  log := log rag ++ [LogError book_id e] |})
  /\ (forall books,
        select_all_books db = Ok books ->
        exists rag' stats,
          reindex_all_books rag db = Ok (rag', stats)
          /\ indexed_count stats = total_books stats
          /\ total_books stats = len books).
Proof.
  split.
  - intros book_id. unfold index_book.
    destruct (index_book_body rag db book_id) as [rag'|e]; simpl.
    + exists rag'. split; [done|]. intros e; discriminate.
    + eexists. split; [done|]. by intros e' [= <-].
  - intros books Hbooks. unfold reindex_all_books. rewrite Hbooks. simpl.
    pose proof (reindex_loop_counts db books rag 0) as Hcount.
    destruct (reindex_loop rag db books 0) as [rag' n]. simpl in Hcount.
    eexists _, _. split; [done|]. simpl. split; lia.
Qed.

(** *** The search orchestrator and its database fallback *)

Lemma filter_all {A} (P : A -> Prop) `{forall x, Decision (P x)} (l : list A) :
  Forall P l -> filter P l = l.
Proof.
  induction 1 as [|x l Hx Hl IH]; [done|].
  rewrite filter_cons_True by done. by rewrite IH.
Qed.

Lemma matching_books_plain db query :
  Sql.plain query -> matching_books db query = books_containing db query.
Proof.
  intros Hq. unfold matching_books, books_containing, title_pattern.
  apply list_filter_iff. intros row.
  by rewrite SqlFacts.ilike_plain_contains.
Qed.

Lemma matching_books_empty_query db :
  matching_books db [] = map_to_list (books db).
Proof.
  unfold matching_books, title_pattern. apply filter_all.
  apply Forall_forall. intros row _. apply SqlFacts.ilike_empty_query.
Qed.

(** The result of the fallback, when the matcher found nothing and the
    statement is executed. *)
Lemma search_books_runs_fallback rag db query limit :
  search_similar_books rag query limit = [] ->
  fails db (SelectBooksTitleILike (title_pattern query) limit) = false ->
  0 <= limit ->
  search_books rag db query limit
  = Ok {| query := query;
          results := fallback_hit
                     <$> (load db
                          <$> take (Z.to_nat limit) (matching_books db query)) |}.
Proof.
  intros Hnone Hruns Hlimit. unfold search_books. rewrite Hnone.
  unfold select_books_title_ilike, execute. fold (title_pattern query).
  rewrite Hruns. unfold Sql.limit.
  destruct (limit <? 0) eqn:Hneg; [lia|]. simpl.
  by rewrite !fmap_take.
Qed.

Lemma fallback_hits_shape db query n :
  Forall (fallback_result db query)
         (fallback_hit <$> (load db <$> take n (matching_books db query))).
Proof.
  apply Forall_fmap, Forall_fmap, Forall_take.
  apply Forall_forall. intros [book_id b] Hrow.
  apply list_elem_of_filter in Hrow as [Hmatch Hrow].
  apply elem_of_map_to_list in Hrow.
  split; [reflexivity|]. exists b. simpl in *. done.
Qed.

(** C3, as the code has it. [search_books] answers with the matcher's
    hits, unchanged and without consulting the database, exactly when the
    matcher returned some; when the matcher returned none it runs the
    fallback statement: it raises if the statement fails or [limit] is
    negative, and otherwise returns at most [limit] hits, as many as
    [limit] and the number of matching books allow, each of score 1 and
    built from a stored book whose title matches [%query%] under ILIKE.
    When the query has no [%], [_] or backslash, the matching books are
    those whose title contains the query, case ignored. The answer carries
    the query as it was given. *)
Theorem search_books_fallback_rule rag db (query : str) (limit : Z) :
  let matched := search_similar_books rag query limit in
  let stmt := SelectBooksTitleILike (title_pattern query) limit in
  (matched <> [] ->
   search_books rag db query limit
   = Ok {| query := query; results := matched |})
  /\ (matched = [] -> fails db stmt = true \/ limit < 0 ->
      search_books rag db query limit = Raise DBError)
  /\ (matched = [] -> fails db stmt = false -> 0 <= limit ->
      exists hits,
        search_books rag db query limit
        = Ok {| query := query; results := hits |}
        /\ len hits <= limit
        /\ len hits = Z.min limit (len (matching_books db query))
        /\ Forall (fallback_result db query) hits)
  /\ (Sql.plain query ->
      matching_books db query = books_containing db query).
Proof.
  intros matched stmt. split; [|split; [|split]].
  - intros Hsome. unfold search_books. fold matched.
    by destruct matched.
  - intros Hnone Hfail. unfold search_books. fold matched. rewrite Hnone.
    unfold select_books_title_ilike, execute. fold (title_pattern query).
    fold stmt. destruct (fails db stmt); [done|].
    destruct Hfail as [?|Hneg]; [done|].
    unfold Sql.limit. by rewrite (proj2 (Z.ltb_lt limit 0) Hneg).
  - intros Hnone Hruns Hlimit.
    rewrite (search_books_runs_fallback rag db query limit Hnone Hruns Hlimit).
    eexists. split; [done|].
    assert (Hlen :
      len (fallback_hit
           <$> (load db <$> take (Z.to_nat limit) (matching_books db query)))
      = Z.min limit (len (matching_books db query))).
    { unfold len. rewrite !length_fmap, length_take. lia. }
    split; [lia|]. split; [done|]. apply fallback_hits_shape.
  - apply matching_books_plain.
Qed.

(** C10, as the code has it. For the empty query the matcher returns
    nothing, the pattern is [%%] and every stored book matches it; when
    the store has a book, [limit] is at least 1 and the statement is
    executed, [search_books] returns a non-empty list: as many books as
    [limit] and the size of the store allow, each with score 1. *)
Theorem search_books_empty_query rag db (limit : Z) :
  books db <> ∅ ->
  1 <= limit ->
  fails db (SelectBooksTitleILike (title_pattern []) limit) = false ->
  search_similar_books rag [] limit = []
  /\ matching_books db [] = map_to_list (books db)
  /\ exists hits,
       search_books rag db [] limit = Ok {| query := []; results := hits |}
       /\ hits <> []
       /\ len hits = Z.min limit (Z.of_nat (size (books db)))
       /\ Forall (fallback_result db []) hits.
Proof.
  intros Hbooks Hlimit Hruns.
  split; [apply search_similar_books_empty_query|].
  split; [apply matching_books_empty_query|].
  rewrite (search_books_runs_fallback rag db [] limit
             (search_similar_books_empty_query rag limit) Hruns)
    by lia.
  eexists. split; [done|].
  assert (Hlen :
    len (fallback_hit
         <$> (load db <$> take (Z.to_nat limit) (matching_books db [])))
    = Z.min limit (Z.of_nat (size (books db)))).
  { unfold len. rewrite !length_fmap, length_take, matching_books_empty_query,
      length_map_to_list. lia. }
  split; [|split; [done|apply fallback_hits_shape]].
  intros Hnil. rewrite Hnil in Hlen. unfold len in Hlen. simpl in Hlen.
  assert (size (books db) <> 0%nat) by (by rewrite map_size_non_empty_iff).
  lia.
Qed.

(** *** The properties on the sample library *)

(** With two entries matching and [n_results = -1] the matcher returns one
    hit, which is more than [n_results]. *)
Lemma search_similar_books_negative_n_results :
  len (search_similar_books Examples.indexed (lit "title:") (-1)) = 1
  /\ ~ len (search_similar_books Examples.indexed (lit "title:") (-1)) <= -1.
Proof. split; [reflexivity|]. vm_compute. intros H. by apply H. Qed.

Lemma search_similar_books_ranked_witness :
  0 <= 5
  /\ len (search_similar_books Examples.indexed (lit "dune herbert") 5) <= 5.
Proof.
  split; [lia|].
  apply (search_similar_books_ranked Examples.indexed (lit "dune herbert") 5).
  lia.
Defined.

Lemma index_book_last_write_wins_witness :
  exists rag1 rag2 embedding2,
    index_book Examples.fresh Examples.library 1 = Ok rag1
    /\ index_book rag1 Examples.library_renamed 1 = Ok rag2
    /\ keys (embeddings_store rag2) = keys (embeddings_store rag1)
    /\ len (embeddings_store rag2) = len (embeddings_store rag1)
    /\ generate_embeddings
         (book_content
            (load Examples.library_renamed (1, Examples.dune_messiah)) [])
       = Ok embedding2
    /\ get (embeddings_store rag2) 1
       = Some (entry_of 1
                 (load Examples.library_renamed (1, Examples.dune_messiah))
                 [] embedding2)
    /\ (forall other : Z,
          other <> 1 ->
          get (embeddings_store rag2) other
          = get (embeddings_store Examples.fresh) other).
Proof.
  apply (index_book_last_write_wins Examples.fresh Examples.library
           Examples.library_renamed 1
           (load Examples.library (1, Examples.dune)) [Examples.praise]
           (load Examples.library_renamed (1, Examples.dune_messiah)) []);
    reflexivity.
Defined.

Lemma indexing_failures_suppressed_witness :
  select_all_books Examples.library_failing
  = Ok (map_to_list (books Examples.library_failing))
  /\ exists rag' stats,
       reindex_all_books Examples.fresh Examples.library_failing
       = Ok (rag', stats)
       /\ indexed_count stats = total_books stats
       /\ total_books stats
          = len (map_to_list (books Examples.library_failing)).
Proof.
  split; [reflexivity|].
  apply (indexing_failures_suppressed Examples.fresh Examples.library_failing).
  reflexivity.
Defined.

(** On the failing server the read of book 2 raises inside [index_book]:
    the error is logged, only book 1 is stored, and both books are counted
    as indexed. *)
Example reindex_all_books_with_failure :
  exists rag',
    reindex_all_books Examples.fresh Examples.library_failing
    = Ok (rag', {| total_books := 2; indexed_count := 2; total_in_store := 1 |})
    /\ log rag' = [LogError 2 DBError]
    /\ keys (embeddings_store rag') = [1].
Proof. eexists. split; [vm_compute; reflexivity|]. by split. Qed.

(** The query [_] finds both sample books by the fallback, though neither
    title contains an underscore. *)
Lemma search_books_underscore_is_wildcard :
  exists hits,
    search_books Examples.fresh Examples.library (lit "_") 5
    = Ok {| query := lit "_"; results := hits |}
    /\ hit_book_id <$> hits = [2; 1]
    /\ Forall (fun h => contains (lower (m_title (hit_metadata h)))
                                 (lower (lit "_")) = false) hits.
Proof.
  eexists. split; [vm_compute; reflexivity|].
  split; [reflexivity|]. by repeat constructor.
Qed.

Lemma search_books_fallback_rule_witness :
  exists hits,
    search_books Examples.fresh Examples.library (lit "dune") 5
    = Ok {| query := lit "dune"; results := hits |}
    /\ len hits <= 5
    /\ len hits = Z.min 5 (len (matching_books Examples.library (lit "dune")))
    /\ Forall (fallback_result Examples.library (lit "dune")) hits.
Proof.
  apply (search_books_fallback_rule Examples.fresh Examples.library
           (lit "dune") 5); [reflexivity | reflexivity | lia].
Defined.

(** With [limit = 0] the empty query returns no book, though the store has
    two. *)
Lemma empty_query_limit_zero_finds_nothing :
  books Examples.library !! 1 = Some Examples.dune
  /\ search_books Examples.fresh Examples.library [] 0
     = Ok {| query := []; results := [] |}.
Proof. split; reflexivity. Qed.

Lemma library_has_books : books Examples.library <> ∅.
Proof.
  intros Hempty. apply (f_equal (fun m => m !! 1)) in Hempty.
  by rewrite lookup_empty in Hempty.
Qed.

Lemma search_books_empty_query_witness :
  exists hits,
    search_books Examples.fresh Examples.library [] 5
    = Ok {| query := []; results := hits |}
    /\ hits <> []
    /\ len hits = Z.min 5 (Z.of_nat (size (books Examples.library)))
    /\ Forall (fallback_result Examples.library []) hits.
Proof.
  apply (search_books_empty_query Examples.fresh Examples.library 5);
    [apply library_has_books | lia | reflexivity].
Defined.

End SearchSpec.


(** ** The ingestion job tracker *)
Module IngestionSpec.
Import Py PyFacts Ingestion.

(** No key of the table is above the largest one. *)
Lemma keys_bounded {A} (table : gmap Z A) (k : Z) :
  is_Some (table !! k) -> k <= map_fold (fun k _ acc => Z.max k acc) 0 table.
Proof.
  revert k.
  apply (map_fold_weak_ind
           (fun r (m : gmap Z A) => forall k, is_Some (m !! k) -> k <= r)).
  - intros k [x Hx]. by rewrite lookup_empty in Hx.
  - intros i x m r Hi IH k Hk.
    destruct (decide (i = k)) as [->|Hne]; [lia|].
    rewrite lookup_insert_ne in Hk by done. specialize (IH k Hk). lia.
Qed.

(** The key given to a new row is not in the table. *)
Lemma next_id_fresh {A} (table : gmap Z A) : table !! next_id table = None.
Proof.
  destruct (table !! next_id table) as [x|] eqn:Hx; [|done].
  pose proof (keys_bounded table (next_id table) (mk_is_Some _ _ Hx)).
  unfold next_id in *. lia.
Qed.

(** C4. [trigger_ingestion] for a document id that is not in [documents]
    raises DocumentNotFoundError (answered as 404 Not Found) and leaves the
    state as it was, so no job row is created. For a document that exists
    it adds exactly one row to [ingestion_jobs], under a key that was free,
    with that document id, the status running and the request's instant,
    changes no other row, and answers with the new key while the
    completion task is only scheduled: it is the last of the pending tasks
    and the status read back is still running. *)
Theorem trigger_ingestion_creates_job (now : Z) (s : State) (document_id : Z) :
  (documents s !! document_id = None ->
   trigger_ingestion now s document_id = (s, Raise DocumentNotFoundError))
  /\ (is_Some (documents s !! document_id) ->
      exists s' job_id,
        trigger_ingestion now s document_id = (s', Ok job_id)
        /\ ingestion_jobs s !! job_id = None
        /\ ingestion_jobs s'
           = <[job_id := {| document_id := document_id; status := "running";
                            created_at := now |}]> (ingestion_jobs s)
        /\ size (ingestion_jobs s') = S (size (ingestion_jobs s))
        /\ (forall other, other <> job_id ->
              ingestion_jobs s' !! other = ingestion_jobs s !! other)
        /\ documents s' = documents s
        /\ tasks s' = tasks s ++ [job_id]
        /\ ingestion_status s' job_id = Ok ("running", now)).
Proof.
  unfold trigger_ingestion, get_document. split.
  - by intros ->.
  - intros [doc ->]. eexists _, _. split; [reflexivity|]. simpl.
    pose proof (next_id_fresh (ingestion_jobs s)) as Hfresh.
    split; [done|]. split; [done|].
    split; [by apply map_size_insert_None|].
    split; [intros other Hother; by rewrite lookup_insert_ne|].
    split; [done|]. split; [done|].
    unfold ingestion_status; simpl. by rewrite lookup_insert_eq.
Qed.

Lemma complete_stuck_jobs_lookup now s (job_id : Z) :
  ingestion_jobs (complete_stuck_jobs now s).1 !! job_id
  = swept now <$> ingestion_jobs s !! job_id.
Proof.
  unfold complete_stuck_jobs; simpl.
  rewrite lookup_union, lookup_fmap, map_lookup_filter.
  destruct (ingestion_jobs s !! job_id) as [job|]; simpl; [|done].
  unfold swept, stuck; simpl.
  destruct (decide (status job = "running"
                    /\ created_at job < now - minutes 5)) as [Hs|Hs].
  - by rewrite option_guard_True.
  - by rewrite option_guard_False.
Qed.

(** C5. The sweep served at instant [now] rewrites a job row exactly when
    its status is running and its creation instant is strictly before
    [now] minus 5 minutes, and then only its status, to completed; it
    returns the number of such rows, which is the number of rows it
    changed; documents and pending tasks are untouched. So a running job
    created 10 minutes before [now] becomes completed, a running job
    created 1 minute before [now] is left as it is, and so is a completed
    job of any age. *)
Theorem complete_stuck_jobs_sweeps (now : Z) (s : State) :
  let s' := (complete_stuck_jobs now s).1 in
  (forall job_id,
      ingestion_jobs s' !! job_id = swept now <$> ingestion_jobs s !! job_id)
  /\ (complete_stuck_jobs now s).2
     = Z.of_nat (size (filter (fun row : Z * IngestionJob =>
                                 status row.2 = "running"
                                 /\ created_at row.2 < now - minutes 5)
                              (ingestion_jobs s)))
  /\ (complete_stuck_jobs now s).2
     = Z.of_nat (size (filter (fun row : Z * IngestionJob =>
                                 ingestion_jobs s' !! row.1 <> Some row.2)
                              (ingestion_jobs s)))
  /\ documents s' = documents s
  /\ tasks s' = tasks s
  /\ (forall job_id job,
        ingestion_jobs s !! job_id = Some job ->
        (status job = "running" -> created_at job = now - minutes 10 ->
         ingestion_jobs s' !! job_id = Some (set_status "completed" job))
        /\ (status job = "running" -> created_at job = now - minutes 1 ->
            ingestion_jobs s' !! job_id = Some job)
        /\ (status job = "completed" ->
            ingestion_jobs s' !! job_id = Some job)).
Proof.
  intros s'. split; [apply complete_stuck_jobs_lookup|].
  split; [reflexivity|]. split; [|split; [done|split; [done|]]].
  - unfold complete_stuck_jobs at 1; simpl. do 2 f_equal.
    apply map_filter_ext. intros job_id job Hjob.
    change (stuck (now - minutes 5) (job_id, job)
            <-> ingestion_jobs (complete_stuck_jobs now s).1 !! job_id
                <> Some job).
    rewrite complete_stuck_jobs_lookup, Hjob. simpl.
    unfold swept, stuck; simpl. case_decide as Hs.
    + split; [|done]. intros _ [= Heq].
      destruct Hs as [Hrun _]. rewrite <- Heq in Hrun. discriminate.
    + split; [done|]. by intros [].
  - intros job_id job Hjob. unfold s'.
    rewrite complete_stuck_jobs_lookup, Hjob. simpl. unfold swept, minutes.
    split; [|split].
    + intros Hrun Hage. rewrite decide_True; [done|]. split; [done|lia].
    + intros Hrun Hage. rewrite decide_False; [done|]. intros [_ ?]. lia.
    + intros Hdone. rewrite decide_False; [done|]. intros [Hrun _].
      rewrite Hdone in Hrun. discriminate.
Qed.

(** Setting the status a row already has leaves the row as it is. *)
Lemma set_status_same job : set_status (status job) job = job.
Proof. by destruct job. Qed.

Lemma process_ingestion_job_lookup s job_id (other : Z) :
  ingestion_jobs (process_ingestion_job s job_id) !! other
  = if decide (job_id = other)
    then set_status "completed" <$> ingestion_jobs s !! other
    else ingestion_jobs s !! other.
Proof.
  unfold process_ingestion_job.
  destruct (ingestion_jobs s !! job_id) as [job|] eqn:Hjob; simpl.
  - rewrite lookup_insert. case_decide as Hid; [|done].
    subst other. by rewrite Hjob.
  - case_decide as Hid; [|done]. subst other. by rewrite Hjob.
Qed.

(** A completed row is left as it is by every step. *)
Lemma step_keeps_completed s s' (job_id : Z) job :
  step s s' ->
  ingestion_jobs s !! job_id = Some job ->
  status job = "completed" ->
  ingestion_jobs s' !! job_id = Some job.
Proof.
  intros Hstep Hjob Hdone. destruct Hstep as
    [now s document_id | s task before after Htasks | s id answer _
    | s answer _ | now s].
  - unfold trigger_ingestion.
    destruct (get_document s document_id); simpl; [|done].
    rewrite lookup_insert_ne; [done|]. intros Heq.
    pose proof (next_id_fresh (ingestion_jobs s)) as Hfresh.
    rewrite Heq in Hfresh. congruence.
  - rewrite process_ingestion_job_lookup; simpl. case_decide; [|done].
    rewrite Hjob; simpl. by rewrite <- Hdone, set_status_same.
  - done.
  - done.
  - rewrite complete_stuck_jobs_lookup, Hjob. simpl. unfold swept.
    rewrite decide_False; [done|]. intros [Hrun _].
    rewrite Hdone in Hrun. discriminate.
Qed.

(** A row found after a step was there before it, or its status is
    running or completed. *)
Lemma step_writes_running_or_completed s s' (job_id : Z) job' :
  step s s' ->
  ingestion_jobs s' !! job_id = Some job' ->
  ingestion_jobs s !! job_id = Some job'
  \/ status job' = "running" \/ status job' = "completed".
Proof.
  intros Hstep. destruct Hstep as
    [now s document_id | s task before after Htasks | s id answer _
    | s answer _ | now s].
  - unfold trigger_ingestion.
    destruct (get_document s document_id); simpl; [|by left].
    rewrite lookup_insert. case_decide.
    + intros [= <-]. right. by left.
    + by left.
  - rewrite process_ingestion_job_lookup; simpl. case_decide; [|by left].
    destruct (ingestion_jobs s !! job_id) as [job|]; simpl; [|done].
    intros [= <-]. right. by right.
  - by left.
  - by left.
  - rewrite complete_stuck_jobs_lookup.
    destruct (ingestion_jobs s !! job_id) as [job|]; simpl; [|done].
    unfold swept. case_decide.
    + intros [= <-]. right. by right.
    + by left.
Qed.

(** C7. Along any sequence of steps of the tracker (a trigger, a
    background completion, a status lookup, a listing, a sweep), a job row
    whose status is completed is found unchanged at the end, hence still
    completed; and a row found at the end with the status pending or
    failed was already there, the same, at the start: no step writes
    either status. *)
Theorem completed_is_final (s s' : State) :
  steps s s' ->
  (forall job_id job,
      ingestion_jobs s !! job_id = Some job ->
      status job = "completed" ->
      ingestion_jobs s' !! job_id = Some job)
  /\ (forall job_id job',
        ingestion_jobs s' !! job_id = Some job' ->
        status job' = "pending" \/ status job' = "failed" ->
        ingestion_jobs s !! job_id = Some job').
Proof.
  induction 1 as [s|s1 s2 s3 Hsteps [IHdone IHnew] Hstep]; [by split|].
  split.
  - intros job_id job Hjob Hdone.
    eapply step_keeps_completed; [exact Hstep| |exact Hdone]. auto.
  - intros job_id job' Hjob' Hst.
    destruct (step_writes_running_or_completed _ _ _ _ Hstep Hjob')
      as [Hold|[Hrun|Hdone]].
    + auto.
    + rewrite Hrun in Hst. by destruct Hst.
    + rewrite Hdone in Hst. by destruct Hst.
Qed.

(** *** Listing the jobs *)

Lemma newest_first_total a b :
  newest_first a b = true \/ newest_first b a = true.
Proof. unfold newest_first. rewrite !Z.leb_le. lia. Qed.

#[local] Instance not_older_trans : Transitive not_older.
Proof. intros a b c. unfold not_older. lia. Qed.

Lemma list_ingestion_jobs_sorted s :
  StronglySorted not_older (list_ingestion_jobs s).
Proof.
  apply Sorted_StronglySorted; [apply _|].
  eapply Sorted_weaken; [|apply (sorted_Sorted _ newest_first_total)].
  intros a b Hab. by apply Z.leb_le in Hab.
Qed.

Lemma join_document_ids s (rows : list (Z * IngestionJob)) :
  Forall (fun row => is_Some (documents s !! document_id row.2)) rows ->
  info_id <$> omap (join_document s) rows = rows.*1.
Proof.
  induction 1 as [|[job_id job] rows [doc Hdoc] Hrows IH]; [done|].
  change (omap (join_document s) ((job_id, job) :: rows))
    with (match join_document s (job_id, job) with
          | Some info => info :: omap (join_document s) rows
          | None => omap (join_document s) rows
          end).
  unfold join_document at 1. simpl in Hdoc. simpl document_id.
  rewrite Hdoc. cbv [mbind option_bind]. rewrite fmap_cons, IH. reflexivity.
Qed.

Lemma join_document_describes s row info :
  row ∈ map_to_list (ingestion_jobs s) ->
  join_document s row = Some info ->
  describes s info.
Proof.
  intros Hrow. destruct row as [job_id job].
  apply elem_of_map_to_list in Hrow. unfold join_document. simpl.
  destruct (documents s !! document_id job) as [doc|] eqn:Hdoc; simpl;
    [|done].
  intros [= <-]. exists job, doc. simpl. done.
Qed.

(** C8. When every job row refers to a stored document,
    [list_ingestion_jobs] returns all the jobs, each once: its ids are the
    keys of [ingestion_jobs] up to order; the list is ordered by creation
    instant, newest first; and each element carries the id, document id,
    status and creation instant of its job row and the filename of that
    row's document. *)
Theorem list_ingestion_jobs_newest_first (s : State) :
  documents_exist s ->
  info_id <$> list_ingestion_jobs s ≡ₚ (map_to_list (ingestion_jobs s)).*1
  /\ length (list_ingestion_jobs s) = size (ingestion_jobs s)
  /\ StronglySorted not_older (list_ingestion_jobs s)
  /\ Forall (describes s) (list_ingestion_jobs s).
Proof.
  intros Hfk.
  assert (Hids :
    info_id <$> list_ingestion_jobs s ≡ₚ (map_to_list (ingestion_jobs s)).*1).
  { unfold list_ingestion_jobs. rewrite sorted_perm.
    rewrite join_document_ids; [done|].
    apply Forall_forall. intros [job_id job] Hrow. simpl.
    apply elem_of_map_to_list in Hrow. by eapply Hfk. }
  split; [done|]. split; [|split].
  - apply Permutation_length in Hids.
    rewrite !length_fmap, length_map_to_list in Hids. done.
  - apply list_ingestion_jobs_sorted.
  - unfold list_ingestion_jobs. rewrite sorted_perm.
    apply Forall_forall. intros info Hinfo.
    apply list_elem_of_omap in Hinfo as (row & Hrow & Hjoin).
    by eapply join_document_describes.
Qed.

(** The foreign key holds after every step that started with it. *)
Lemma step_keeps_documents s s' :
  step s s' -> documents_exist s -> documents_exist s'.
Proof.
  intros Hstep Hfk. destruct Hstep as
    [now s document_id | s task before after Htasks | s id answer _
    | s answer _ | now s]; try done.
  - unfold trigger_ingestion, get_document.
    destruct (documents s !! document_id) as [doc|] eqn:Hdoc; simpl; [|done].
    intros job_id job. simpl. rewrite lookup_insert. case_decide.
    + intros [= <-]. simpl. by rewrite Hdoc.
    + apply Hfk.
  - intros other job'. rewrite process_ingestion_job_lookup. simpl.
    replace (documents (process_ingestion_job
                          {| documents := documents s;
                             ingestion_jobs := ingestion_jobs s;
                             tasks := before ++ after |} task))
      with (documents s)
      by (unfold process_ingestion_job; simpl;
          by destruct (ingestion_jobs s !! task)).
    case_decide; [|apply Hfk].
    destruct (ingestion_jobs s !! other) as [job|] eqn:Hjob; simpl; [|done].
    intros [= <-]. simpl. by eapply Hfk.
  - intros job_id job'. rewrite complete_stuck_jobs_lookup. simpl.
    destruct (ingestion_jobs s !! job_id) as [job|] eqn:Hjob; simpl; [|done].
    intros [= <-]. unfold swept. case_decide; simpl; by eapply Hfk.
Qed.

(** *** The properties on the sample states *)

Lemma trigger_ingestion_creates_job_witness :
  exists s' job_id,
    trigger_ingestion Examples.noon Examples.uploaded 7 = (s', Ok job_id)
    /\ ingestion_jobs Examples.uploaded !! job_id = None
    /\ ingestion_jobs s'
       = <[job_id := {| document_id := 7; status := "running";
                        created_at := Examples.noon |}]>
           (ingestion_jobs Examples.uploaded)
    /\ size (ingestion_jobs s') = S (size (ingestion_jobs Examples.uploaded))
    /\ (forall other, other <> job_id ->
          ingestion_jobs s' !! other
          = ingestion_jobs Examples.uploaded !! other)
    /\ documents s' = documents Examples.uploaded
    /\ tasks s' = tasks Examples.uploaded ++ [job_id]
    /\ ingestion_status s' job_id = Ok ("running", Examples.noon).
Proof.
  apply (trigger_ingestion_creates_job Examples.noon Examples.uploaded 7).
  by exists Examples.report.
Defined.

(** A trigger for a document id that is not stored. *)
Example trigger_ingestion_unknown_document :
  trigger_ingestion Examples.noon Examples.uploaded 8
  = (Examples.uploaded, Raise DocumentNotFoundError).
Proof. reflexivity. Qed.

Lemma complete_stuck_jobs_sweeps_witness :
  ingestion_jobs (complete_stuck_jobs Examples.noon Examples.three_jobs).1 !! 1
  = Some (set_status "completed" Examples.old_running).
Proof.
  destruct (complete_stuck_jobs_sweeps Examples.noon Examples.three_jobs)
    as (_ & _ & _ & _ & _ & Hrows).
  destruct (Hrows 1 Examples.old_running) as (Hold & _ & _);
    [reflexivity|].
  apply Hold; reflexivity.
Defined.

(** The sweep of the sample state completes job 1 only. *)
Example complete_stuck_jobs_three_jobs :
  let swept_jobs :=
    ingestion_jobs (complete_stuck_jobs Examples.noon Examples.three_jobs).1 in
  (complete_stuck_jobs Examples.noon Examples.three_jobs).2 = 1
  /\ swept_jobs !! 1 = Some (set_status "completed" Examples.old_running)
  /\ swept_jobs !! 2 = Some Examples.young_running
  /\ swept_jobs !! 3 = Some Examples.old_completed.
Proof. repeat split. Qed.

Lemma three_jobs_steps : steps Examples.three_jobs Examples.three_jobs_later.
Proof.
  unfold Examples.three_jobs_later.
  eapply steps_next; [|apply step_sweep].
  eapply steps_next;
    [|apply (step_background
               (trigger_ingestion Examples.noon Examples.three_jobs 7).1
               2 [] [4]); reflexivity].
  eapply steps_next; [apply steps_refl|apply step_trigger].
Defined.

Lemma completed_is_final_witness :
  ingestion_jobs Examples.three_jobs_later !! 3 = Some Examples.old_completed.
Proof.
  apply (completed_is_final Examples.three_jobs Examples.three_jobs_later
           three_jobs_steps);
    reflexivity.
Defined.

Lemma three_jobs_documents_exist : documents_exist Examples.three_jobs.
Proof.
  intros job_id job Hjob.
  apply elem_of_map_to_list in Hjob. vm_compute in Hjob.
  repeat (apply elem_of_cons in Hjob as [[= -> ->]|Hjob];
          [by exists Examples.report|]).
  by apply elem_of_nil in Hjob.
Defined.

Lemma list_ingestion_jobs_newest_first_witness :
  info_id <$> list_ingestion_jobs Examples.three_jobs
  ≡ₚ (map_to_list (ingestion_jobs Examples.three_jobs)).*1
  /\ length (list_ingestion_jobs Examples.three_jobs)
     = size (ingestion_jobs Examples.three_jobs)
  /\ StronglySorted not_older (list_ingestion_jobs Examples.three_jobs)
  /\ Forall (describes Examples.three_jobs)
            (list_ingestion_jobs Examples.three_jobs).
Proof.
  apply (list_ingestion_jobs_newest_first Examples.three_jobs).
  apply three_jobs_documents_exist.
Defined.

(** The listing of the sample state: job 2 (one minute old), then job 1,
    then job 3, each with the filename of document 7. *)
Example list_ingestion_jobs_three_jobs :
  (fun info => (info_id info, info_filename info))
  <$> list_ingestion_jobs Examples.three_jobs
  = [(2, lit "report.pdf"); (1, lit "report.pdf"); (3, lit "report.pdf")].
Proof. reflexivity. Qed.

End IngestionSpec.
